(** * mdtoc: table of contents of a markdown file

    A shallow embedding of [src/mdtoc/mdtoc.py] and the properties of its
    heading extractor, whitelist resolution, path validation and [main].

    Text is modelled by [string]; a character is a code point below 256
    (the Latin-1 range), on which Python's [str.isspace] and [str.lower]
    act character by character.  A raised exception is the left injection
    of a sum, a returned value the right one. *)

From Stdlib Require Import String Ascii List ZArith NArith Bool Lia.
From Stdlib Require Import Sorted Permutation DecimalString.
Import ListNotations.

#[local] Open Scope string_scope.
#[local] Open Scope list_scope.

(** ** Python built-ins used by the script *)

Module Py.

Inductive exn : Type :=
| IndexError
| OSError (strerror : string).

(** [inl e]: the exception [e] was raised; [inr v]: [v] was returned. *)
Definition result (A : Type) : Type := (exn + A)%type.

Definition code (c : ascii) : N := N_of_ascii c.

(** [str.isspace] on one character: TAB..CR, FS..US, SPACE, NEL, NBSP. *)
Definition isspace (c : ascii) : bool :=
  let n := code c in
  ((9 <=? n) && (n <=? 13) || (28 <=? n) && (n <=? 32)
   || (n =? 133) || (n =? 160))%N.

(** [str.lower] on one character: A-Z and the Latin-1 capitals
    (U+00C0..U+00DE without the multiplication sign U+00D7). *)
Definition lower_char (c : ascii) : ascii :=
  let n := code c in
  if ((65 <=? n) && (n <=? 90)
      || (192 <=? n) && (n <=? 222) && negb (n =? 215))%N
  then ascii_of_N (n + 32) else c.

Fixpoint lower (s : string) : string :=
  match s with
  | EmptyString => EmptyString
  | String c s' => String (lower_char c) (lower s')
  end.

(** [s.startswith(p)] *)
Fixpoint startswith (s p : string) {struct p} : bool :=
  match p with
  | EmptyString => true
  | String a p' =>
      match s with
      | EmptyString => false
      | String b s' => Ascii.eqb a b && startswith s' p'
      end
  end.

Definition is_empty (s : string) : bool :=
  match s with EmptyString => true | String _ _ => false end.

(** [s.rstrip()]: trailing whitespace removed. *)
Fixpoint rstrip (s : string) : string :=
  match s with
  | EmptyString => EmptyString
  | String c s' =>
      let r := rstrip s' in
      if isspace c && is_empty r then EmptyString else String c r
  end.

(** [s.split()]: the maximal runs of non-whitespace characters, scanned
    left to right; [cur] is the run being read. *)
Fixpoint split_from (cur s : string) : list string :=
  match s with
  | EmptyString => if is_empty cur then [] else [cur]
  | String c s' =>
      if isspace c
      then (if is_empty cur then split_from EmptyString s'
            else cur :: split_from EmptyString s')
      else split_from (cur ++ String c EmptyString) s'
  end.

Definition split (s : string) : list string := split_from EmptyString s.

(** [sep.join(l)] *)
Definition join (sep : string) (l : list string) : string :=
  String.concat sep l.

(** [x in l] for a list of strings. *)
Definition str_in (x : string) (l : list string) : bool :=
  existsb (String.eqb x) l.

(** [l[k]] with Python's negative indices. *)
Definition index {A : Type} (l : list A) (k : Z) : result A :=
  let n := Z.of_nat (List.length l) in
  let k' := (if k <? 0 then k + n else k)%Z in
  if ((0 <=? k') && (k' <? n))%Z
  then match nth_error l (Z.to_nat k') with
       | Some x => inr x
       | None => inl IndexError
       end
  else inl IndexError.

(** [sorted(l)] on strings: ascending code-point order.  The order is
    total and antisymmetric, so every sorting algorithm, stable or not,
    returns the same list; insertion keeps equal elements in place. *)
Fixpoint insert_sorted (x : string) (l : list string) : list string :=
  match l with
  | [] => [x]
  | y :: l' => if String.leb x y then x :: l else y :: insert_sorted x l'
  end.

Definition sorted (l : list string) : list string :=
  fold_right insert_sorted [] l.

(** [str(i)] for an integer. *)
Definition str_of_int (i : Z) : string :=
  DecimalString.NilZero.string_of_int (Z.to_int i).

Definition newline : string := String (ascii_of_N 10) EmptyString.

(** A line as iterating over a text file yields it: with its newline. *)
Definition ln (s : string) : string := s ++ newline.

End Py.

(** ** The heading extractor *)

Module Mdtoc.

Import Py.

Record loop_state : Type := LoopState {
  fenced_code : bool;
  table_of_contents : list string
}.

Definition fence : string := "```".

(** The f-string of [parse_file]. *)
Definition toc_line (title link : string) : string :=
  "[" ++ title ++ "](#" ++ link ++ ")".

(** One iteration of the [for line in file_handle] loop. *)
Definition parse_line (headings : list string) (st : loop_state)
  (line : string) : result loop_state :=
  let fenced_code :=
    if startswith line fence then negb (fenced_code st)
    else fenced_code st in
  if negb fenced_code && startswith line "#" then
    let tokens := split (rstrip line) in
    match index tokens 0 with
    | inl e => inl e
    | inr marker =>
        if str_in marker headings then
          let title := join " " (tl tokens) in
          let link := lower (join "-" (tl tokens)) in
          inr (LoopState fenced_code
                 (table_of_contents st ++ [toc_line title link]))
        else inr (LoopState fenced_code (table_of_contents st))
    end
  else inr (LoopState fenced_code (table_of_contents st)).

Fixpoint parse_lines (headings : list string) (st : loop_state)
  (lines : list string) : result loop_state :=
  match lines with
  | [] => inr st
  | line :: rest =>
      match parse_line headings st line with
      | inl e => inl e
      | inr st' => parse_lines headings st' rest
      end
  end.

Definition initial : loop_state := LoopState false [].

Definition parse_file (file_handle : list string)
  (headings : list string) : result (list string) :=
  match parse_lines headings initial file_handle with
  | inl e => inl e
  | inr st => inr (table_of_contents st)
  end.

(** *** Whitelist resolution *)

Definition WHITELIST : list string :=
  ["#"; "##"; "###"; "####"; "#####"; "######"].

(** The [for i in args] loop inside the [try]: [user_whitelist] as it
    stands when the loop ends, and the [i] at which [WHITELIST[i - 1]]
    raised [IndexError], if it did. *)
Fixpoint whitelist_loop (args : list Z) (user_whitelist : list string)
  : list string * option Z :=
  match args with
  | [] => (user_whitelist, None)
  | i :: rest =>
      match index WHITELIST (i - 1) with
      | inr marker => whitelist_loop rest (user_whitelist ++ [marker])
      | inl _ => (user_whitelist, Some i)
      end
  end.

Definition invalid_argument (i : Z) : string :=
  "[-w] Invalid argument: " ++ str_of_int i.

(** *** Console, clipboard and file system *)

Record world : Type := World {
  stdout : list string;
  win_clipboard : option string
}.

(** What the script asks of [pathlib] and [open]: whether the path
    exists, its suffix, and the lines of the file or the [strerror] of
    the [OSError] that opening or reading it raises. *)
Record file_system : Type := FileSystem {
  path_exists : string -> bool;
  path_suffix : string -> string;
  read_lines : string -> string + list string
}.

Definition M (A : Type) : Type := world -> result A * world.

Definition ret {A : Type} (x : A) : M A := fun w => (inr x, w).

Definition raise {A : Type} (e : exn) : M A := fun w => (inl e, w).

Definition bind {A B : Type} (m : M A) (k : A -> M B) : M B :=
  fun w =>
    match m w with
    | (inl e, w') => (inl e, w')
    | (inr x, w') => k x w'
    end.

Notation "x <- m ;; k" := (bind m (fun x => k))
  (at level 61, m at next level, right associativity).
Notation "m ;;; k" := (bind m (fun _ => k))
  (at level 61, right associativity).

Definition print (s : string) : M unit :=
  fun w => (inr tt, World (stdout w ++ [s]) (win_clipboard w)).

Fixpoint print_each (l : list string) : M unit :=
  match l with
  | [] => ret tt
  | line :: rest => print line ;;; print_each rest
  end.

(** [try: m except OSError as e: handler(e.strerror)] *)
Definition try_OSError {A : Type} (m : M A) (handler : string -> M A)
  : M A :=
  fun w =>
    match m w with
    | (inl (OSError strerror), w') => handler strerror w'
    | r => r
    end.

Definition _get_heading_whitelist (args : option (list Z))
  : M (list string) :=
  user_whitelist <-
    match args with
    | Some (i :: rest) =>
        match whitelist_loop (i :: rest) [] with
        | (user_whitelist, Some i) =>
            print (invalid_argument i) ;;; ret user_whitelist
        | (user_whitelist, None) => ret user_whitelist
        end
    | _ => ret []
    end ;;
  ret (match user_whitelist with [] => WHITELIST | _ => user_whitelist end).

Definition _valid_path (fs : file_system) (p : string) : M bool :=
  if negb (path_exists fs p) then
    print "ERROR:  Invalid path or destination." ;;; ret false
  else if negb (str_in (lower (path_suffix fs p)) [".md"; ".markdown"])
  then
    print "ERROR:  Expected file format is '.md' or '.markdown'" ;;;
    ret false
  else ret true.

Definition set_win_clipboard (output : string) : M unit :=
  fun w => (inr tt, World (stdout w) (Some output)).

(** The namespace of [argparse]; the two [store_false] flags are
    [true] unless given. *)
Record arguments : Type := Namespace {
  path : string;
  alphabetical : bool;
  clipboard : bool;
  output : bool;
  whitelist : option (list Z)
}.

(** [with open(path, 'r') as file_handle: parse_file(file_handle, ...)] *)
Definition open_and_parse (fs : file_system) (p : string)
  (headings : list string) : M (list string) :=
  match read_lines fs p with
  | inl strerror => raise (OSError strerror)
  | inr file_handle =>
      fun w => (parse_file file_handle headings, w)
  end.

(** [main]; an early [return] inside the [try] statement is the left
    injection of the value the statement hands on. *)
Definition main (fs : file_system) (args : arguments) : M Z :=
  heading_whitelist <- _get_heading_whitelist (whitelist args) ;;
  valid <- _valid_path fs (path args) ;;
  if negb valid then ret 1%Z
  else
    attempt <-
      try_OSError
        (results <- open_and_parse fs (path args) heading_whitelist ;;
         ret (inr results))
        (fun strerror => print strerror ;;; ret (inl 1%Z)) ;;
    match attempt with
    | inl status => ret status
    | inr [] => print "No Headers found." ;;; ret 1%Z
    | inr results =>
        let results :=
          if alphabetical args then sorted results else results in
        (if output args then print_each results else ret tt) ;;;
        (if clipboard args
         then set_win_clipboard (join newline results)
         else ret tt) ;;;
        ret 0%Z
    end.

(** The [__main__] block: [main(args)] is called and its value dropped. *)
Definition script (fs : file_system) (args : arguments) : M unit :=
  main fs args ;;; ret tt.

(** Exit status of the interpreter: 0 when the script runs to its end,
    1 when an exception escapes it. *)
Definition exit_status {A : Type} (r : result A) : Z :=
  match r with inr _ => 0%Z | inl _ => 1%Z end.

End Mdtoc.

(** ** Notions of the specification *)

Module Spec.

Import Py Mdtoc.

(** A line that begins with three backticks. *)
Definition is_fence (line : string) : bool := startswith line fence.

(** Under strict alternation, a fenced block is open after [lines] when
    an odd number of them are fence lines. *)
Definition fence_open (lines : list string) : bool :=
  Nat.odd (List.length (filter is_fence lines)).

Fixpoint no_space (s : string) : bool :=
  match s with
  | EmptyString => true
  | String c s' => negb (isspace c) && no_space s'
  end.

(** A whitespace-delimited token: not empty, no whitespace in it. *)
Definition is_token (t : string) : bool :=
  negb (is_empty t) && no_space t.

(** A TocEntry: title and anchor. *)
Definition TocEntry : Type := (string * string)%type.

Definition render (e : TocEntry) : string := toc_line (fst e) (snd e).

(** The stable sort of entries by title. *)
Fixpoint insert_by_title (e : TocEntry) (l : list TocEntry)
  : list TocEntry :=
  match l with
  | [] => [e]
  | e' :: l' =>
      if String.leb (fst e) (fst e') then e :: l
      else e' :: insert_by_title e l'
  end.

Definition sort_by_title (l : list TocEntry) : list TocEntry :=
  fold_right insert_by_title [] l.

(** The suffix of the path, lowercased, is a markdown one. *)
Definition suffix_ok (fs : file_system) (p : string) : bool :=
  str_in (lower (path_suffix fs p)) [".md"; ".markdown"].

(** The marker of heading level [n]: [n] hash characters. *)
Definition marker_of_level (n : Z) : string :=
  string_of_list_ascii (repeat "#"%char (Z.to_nat n)).

(** Ascending code-point order on strings. *)
Definition str_le (a b : string) : Prop := String.leb a b = true.

(** The failures of a run: the path does not exist, its suffix is not a
    markdown one, reading raises [OSError], or no entry is extracted. *)
Definition run_fails (fs : file_system) (args : arguments)
  (headings : list string) : bool :=
  negb (path_exists fs (path args))
  || negb (suffix_ok fs (path args))
  || match read_lines fs (path args) with
     | inl _ => true
     | inr file_handle =>
         match parse_file file_handle headings with
         | inr [] => true
         | _ => false
         end
     end.

(** Sample worlds, file systems and arguments. *)
Definition empty_world : world := World [] None.

Definition no_files : file_system :=
  FileSystem (fun _ => false) (fun _ => EmptyString)
    (fun _ => inl "No such file or directory").

Definition one_file (suffix : string) (lines : list string)
  : file_system :=
  FileSystem (fun _ => true) (fun _ => suffix) (fun _ => inr lines).

Definition unreadable_file (suffix strerror : string) : file_system :=
  FileSystem (fun _ => true) (fun _ => suffix) (fun _ => inl strerror).

End Spec.

(** ** Notions used by the further properties *)

Module Laws.

Import Py Mdtoc Spec.

(** The lines the loop looks at: those that start with a hash or with
    three backticks. *)
Definition relevant (line : string) : bool :=
  startswith line "#" || is_fence line.

(** What a line adds to the table when no fenced block is open. *)
Definition entry_of (headings : list string) (line : string)
  : list string :=
  match parse_line headings initial line with
  | inr st => table_of_contents st
  | inl _ => []
  end.

(** The integers at which [WHITELIST[i - 1]] does not raise. *)
Definition accepted (i : Z) : bool := ((-5 <=? i) && (i <=? 6))%Z.

(** The marker [WHITELIST[i - 1]] of an accepted integer: a negative
    index counts from the end of the list. *)
Definition level_marker (i : Z) : string :=
  marker_of_level (if (i <=? 0)%Z then i + 6 else i).

Fixpoint take_while {A : Type} (f : A -> bool) (l : list A) : list A :=
  match l with
  | [] => []
  | x :: l' => if f x then x :: take_while f l' else []
  end.

(** An entry whose title is made of single-spaced tokens and whose
    anchor is computed from the title: lowercase, hyphens for the spaces
    and no whitespace. *)
Definition well_formed_entry (e : string) : Prop :=
  exists title,
    e = toc_line title (lower (join "-" (split title)))
    /\ join " " (split title) = title
    /\ no_space (lower (join "-" (split title))) = true
    /\ lower (lower (join "-" (split title)))
       = lower (join "-" (split title)).

(** The lines of a text: its pieces between newline characters. *)
Fixpoint lines_of (s : string) : list string :=
  match s with
  | EmptyString => [EmptyString]
  | String c s' =>
      if Ascii.eqb c (ascii_of_N 10) then EmptyString :: lines_of s'
      else match lines_of s' with
           | l :: ls => String c l :: ls
           | [] => [String c EmptyString]
           end
  end.

Fixpoint no_newline (s : string) : bool :=
  match s with
  | EmptyString => true
  | String c s' => negb (Ascii.eqb c (ascii_of_N 10)) && no_newline s'
  end.

End Laws.

Import Py Mdtoc Spec Laws.

(** ** Strings *)

Section Strings.

Lemma append_empty_r (s : string) : (s ++ EmptyString)%string = s.
Proof. induction s as [|c s IH]; simpl; [reflexivity | now rewrite IH]. Qed.

Lemma append_assoc (a b c : string) :
  ((a ++ b) ++ c)%string = (a ++ (b ++ c))%string.
Proof. induction a as [|x a IH]; simpl; [reflexivity | now rewrite IH]. Qed.

Lemma is_empty_true (s : string) : is_empty s = true -> s = EmptyString.
Proof. destruct s; [reflexivity | discriminate]. Qed.

Lemma is_empty_snoc (cur : string) (c : ascii) :
  is_empty (cur ++ String c EmptyString) = false.
Proof. destruct cur; reflexivity. Qed.

Lemma no_space_snoc (cur : string) (c : ascii) :
  no_space cur = true -> isspace c = false ->
  no_space (cur ++ String c EmptyString) = true.
Proof.
  intros Hcur Hc. induction cur as [|x cur IH]; simpl in *.
  - now rewrite Hc.
  - apply andb_true_iff in Hcur as [Hx Hcur]. now rewrite Hx, IH.
Qed.

(** Every token of [split] is a non-empty run without whitespace. *)
Lemma split_from_tokens (s cur : string) :
  no_space cur = true -> Forall (fun t => is_token t = true) (split_from cur s).
Proof.
  revert cur. induction s as [|c s IH]; intros cur Hcur; simpl.
  - destruct (is_empty cur) eqn:E; constructor; [|constructor].
    unfold is_token. now rewrite E, Hcur.
  - destruct (isspace c) eqn:Hc.
    + destruct (is_empty cur) eqn:E.
      * now apply IH.
      * constructor; [unfold is_token; now rewrite E, Hcur | now apply IH].
    + apply IH. now apply no_space_snoc.
Qed.

Lemma split_tokens (s : string) :
  Forall (fun t => is_token t = true) (split s).
Proof. now apply split_from_tokens. Qed.

(** A run that has begun always ends in a token. *)
Lemma split_from_cons (s cur : string) :
  is_empty cur = false -> exists t ts, split_from cur s = t :: ts.
Proof.
  revert cur. induction s as [|c s IH]; intros cur Hcur; simpl.
  - rewrite Hcur. now exists cur, [].
  - destruct (isspace c).
    + rewrite Hcur. now eexists _, _.
    + apply IH, is_empty_snoc.
Qed.

(** [rstrip] before [split] changes nothing. *)
Lemma split_from_rstrip (s cur : string) :
  split_from cur (rstrip s) = split_from cur s.
Proof.
  revert cur. induction s as [|c s IH]; intros cur; simpl; [reflexivity|].
  destruct (isspace c) eqn:Hc; simpl.
  - destruct (is_empty (rstrip s)) eqn:E; simpl; rewrite ?Hc.
    + apply is_empty_true in E.
      rewrite <- (IH EmptyString), E. reflexivity.
    + now rewrite IH.
  - rewrite Hc. apply IH.
Qed.

Lemma split_rstrip (s : string) : split (rstrip s) = split s.
Proof. apply split_from_rstrip. Qed.

Lemma startswith_hash (line : string) :
  startswith line "#" = true -> exists s, line = String "#" s.
Proof.
  destruct line as [|c s]; cbn [startswith]; [discriminate|].
  destruct (Ascii.eqb_spec "#" c) as [<-|]; intros H;
    [now exists s | discriminate].
Qed.

Lemma startswith_hash_not_fence (line : string) :
  startswith line "#" = true -> startswith line fence = false.
Proof. intros [s ->]%startswith_hash. reflexivity. Qed.

(** The tokens of a line that starts with a hash: there is a first one. *)
Lemma hash_line_tokens (line : string) :
  startswith line "#" = true ->
  exists marker rest, split (rstrip line) = marker :: rest.
Proof.
  intros [s ->]%startswith_hash. rewrite split_rstrip.
  unfold split. simpl. now apply split_from_cons.
Qed.

Lemma index_0 {A : Type} (x : A) (l : list A) : index (x :: l) 0 = inr x.
Proof.
  unfold index. cbn [List.length Z.ltb Z.compare].
  replace ((0 <=? 0) && (0 <? Z.of_nat (S (List.length l))))%Z with true.
  - reflexivity.
  - symmetry. apply andb_true_iff. split; [reflexivity|]. apply Z.ltb_lt. lia.
Qed.

Lemma split_from_run (t cur s : string) :
  no_space t = true ->
  split_from cur (t ++ s) = split_from (cur ++ t) s.
Proof.
  revert cur. induction t as [|c t IH]; intros cur Ht; simpl in *.
  - now rewrite append_empty_r.
  - apply andb_true_iff in Ht as [Hc Ht]. apply negb_true_iff in Hc.
    rewrite Hc, (IH _ Ht), append_assoc. reflexivity.
Qed.

(** Tokens joined by single spaces split back into the same tokens. *)
Lemma split_join (tokens : list string) :
  Forall (fun t => is_token t = true) tokens ->
  split (join " " tokens) = tokens.
Proof.
  unfold split, join.
  induction 1 as [|t ts Ht Hts IH]; [reflexivity|].
  apply andb_true_iff in Ht as [Hne Hns]. apply negb_true_iff in Hne.
  destruct ts as [|t2 ts].
  - cbn [String.concat]. rewrite <- (append_empty_r t) at 1.
    rewrite split_from_run by assumption. simpl. now rewrite Hne.
  - change (String.concat " " (t :: t2 :: ts))
      with (t ++ " " ++ String.concat " " (t2 :: ts))%string.
    rewrite split_from_run by assumption.
    cbn [append split_from]. replace (isspace " ") with true by reflexivity.
    now rewrite Hne, IH.
Qed.

Lemma lower_app (a b : string) :
  lower (a ++ b) = (lower a ++ lower b)%string.
Proof. induction a as [|c a IH]; simpl; [reflexivity | now rewrite IH]. Qed.

(** Lowercasing the hyphen-joined tokens lowercases each token. *)
Lemma lower_join (tokens : list string) :
  lower (join "-" tokens) = join "-" (map lower tokens).
Proof.
  unfold join. induction tokens as [|t ts IH]; [reflexivity|].
  destruct ts as [|t2 ts]; [reflexivity|].
  change (String.concat "-" (t :: t2 :: ts))
    with (t ++ "-" ++ String.concat "-" (t2 :: ts))%string.
  change (map lower (t :: t2 :: ts))
    with (lower t :: map lower (t2 :: ts)).
  rewrite lower_app, lower_app, IH. reflexivity.
Qed.

Lemma is_fence_append (tail : string) :
  is_fence (fence ++ tail) = true.
Proof. reflexivity. Qed.

End Strings.

(** ** The loop of [parse_file] *)

Section Loop.

Variable headings : list string.

(** The table the loop starts from is only ever appended to. *)
Lemma parse_line_frame (f : bool) (toc : list string) (line : string) :
  parse_line headings (LoopState f toc) line
  = match parse_line headings (LoopState f []) line with
    | inl e => inl e
    | inr st' =>
        inr (LoopState (fenced_code st') (toc ++ table_of_contents st'))
    end.
Proof.
  unfold parse_line. cbn [fenced_code table_of_contents].
  destruct (negb _ && _).
  - destruct (index _ 0); [reflexivity|].
    destruct (str_in _ _); cbn; now rewrite ?app_nil_r.
  - cbn. now rewrite app_nil_r.
Qed.

Lemma parse_lines_frame (lines : list string) (f : bool)
  (toc : list string) :
  parse_lines headings (LoopState f toc) lines
  = match parse_lines headings (LoopState f []) lines with
    | inl e => inl e
    | inr st' =>
        inr (LoopState (fenced_code st') (toc ++ table_of_contents st'))
    end.
Proof.
  revert f toc. induction lines as [|l lines IH]; intros f toc.
  - cbn. now rewrite app_nil_r.
  - cbn [parse_lines]. rewrite parse_line_frame.
    destruct (parse_line headings (LoopState f []) l) as [e|[f1 e1]];
      [reflexivity|].
    cbn [fenced_code table_of_contents app].
    rewrite (IH f1 (toc ++ e1)), (IH f1 e1).
    destruct (parse_lines headings (LoopState f1 []) lines) as [e|[f2 e2]];
      [reflexivity|].
    cbn. now rewrite app_assoc.
Qed.

(** What one line does: the flag is toggled by a fence line, and at most
    one entry is emitted, none by a fence line or inside a block. *)
Lemma parse_line_shape (f : bool) (line : string) :
  exists emitted,
    parse_line headings (LoopState f []) line
    = inr (LoopState (xorb f (is_fence line)) emitted)
    /\ (List.length emitted <= 1)%nat
    /\ (xorb f (is_fence line) = true -> emitted = [])
    /\ (is_fence line = true -> emitted = []).
Proof.
  unfold parse_line, is_fence. cbn [fenced_code table_of_contents].
  assert ((if startswith line fence then negb f else f)
          = xorb f (startswith line fence)) as ->
    by (destruct (startswith line fence), f; reflexivity).
  destruct (negb _ && startswith line "#") eqn:E.
  - apply andb_true_iff in E as [Hf Hh].
    apply negb_true_iff in Hf.
    destruct (hash_line_tokens line Hh) as (marker & rest & ->).
    rewrite index_0. cbn [tl app]. rewrite Hf.
    rewrite (startswith_hash_not_fence line Hh).
    destruct (str_in marker headings).
    + eexists [_]. repeat split; simpl; try lia; discriminate.
    + exists []. repeat split; simpl; lia.
  - exists []. repeat split; simpl; lia.
Qed.

Lemma parse_lines_app (st : loop_state) (a b : list string) :
  parse_lines headings st (a ++ b)
  = match parse_lines headings st a with
    | inl e => inl e
    | inr st' => parse_lines headings st' b
    end.
Proof.
  revert st. induction a as [|l a IH]; intros st; simpl; [reflexivity|].
  destruct (parse_line headings st l); [reflexivity | apply IH].
Qed.

Lemma fence_open_cons (line : string) (lines : list string) :
  fence_open (line :: lines) = xorb (is_fence line) (fence_open lines).
Proof.
  unfold fence_open. simpl. destruct (is_fence line); simpl.
  - rewrite Nat.odd_succ, <- Nat.negb_odd. reflexivity.
  - reflexivity.
Qed.

Lemma fence_open_app (a b : list string) :
  fence_open (a ++ b) = xorb (fence_open a) (fence_open b).
Proof.
  induction a as [|l a IH]; [reflexivity|].
  cbn [app]. rewrite !fence_open_cons, IH. now rewrite xorb_assoc.
Qed.

(** The loop always returns; its flag follows the parity of the fence
    lines read, and it emits at most one entry per line. *)
Lemma parse_lines_shape (lines : list string) (f : bool) :
  exists emitted,
    parse_lines headings (LoopState f []) lines
    = inr (LoopState (xorb f (fence_open lines)) emitted)
    /\ (List.length emitted <= List.length lines)%nat.
Proof.
  revert f. induction lines as [|l lines IH]; intros f.
  - exists []. cbn. rewrite xorb_false_r. split; [reflexivity | lia].
  - cbn [parse_lines].
    destruct (parse_line_shape f l) as (e1 & -> & Hlen1 & _).
    rewrite parse_lines_frame.
    destruct (IH (xorb f (is_fence l))) as (e2 & -> & Hlen2).
    exists (e1 ++ e2). cbn [fenced_code table_of_contents].
    rewrite fence_open_cons, xorb_assoc.
    split; [reflexivity|]. rewrite length_app. simpl. lia.
Qed.

Lemma parse_file_shape (lines : list string) :
  exists toc,
    parse_lines headings initial lines
    = inr (LoopState (fence_open lines) toc)
    /\ parse_file lines headings = inr toc
    /\ (List.length toc <= List.length lines)%nat.
Proof.
  destruct (parse_lines_shape lines false) as (toc & H & Hlen).
  exists toc. unfold parse_file, initial. rewrite H.
  now repeat split.
Qed.

(** A line that starts with a hash, read outside a fenced block. *)
Lemma parse_line_heading (st : loop_state) (line marker : string)
  (rest : list string) :
  fenced_code st = false -> startswith line "#" = true ->
  split line = marker :: rest ->
  parse_line headings st line
  = inr (LoopState false
           (table_of_contents st ++
              if str_in marker headings
              then [toc_line (join " " rest) (lower (join "-" rest))]
              else [])).
Proof.
  intros Hf Hh Htok. unfold parse_line.
  rewrite (startswith_hash_not_fence line Hh), Hf, Hh, split_rstrip, Htok.
  rewrite index_0. cbn [negb andb tl].
  destruct (str_in marker headings); [reflexivity | now rewrite app_nil_r].
Qed.

End Loop.

(** ** [sorted] *)

Section Sorting.

Lemma str_le_trans (a b c : string) :
  str_le a b -> str_le b c -> str_le a c.
Proof.
  unfold str_le, String.leb. revert b c.
  induction a as [|x a IH]; intros [|y b] [|z c];
    cbn [String.compare]; try (intros; reflexivity || discriminate).
  unfold Ascii.compare.
  destruct (N.compare_spec (N_of_ascii x) (N_of_ascii y));
    destruct (N.compare_spec (N_of_ascii y) (N_of_ascii z));
    destruct (N.compare_spec (N_of_ascii x) (N_of_ascii z));
    try discriminate; try reflexivity; try lia.
  apply IH.
Qed.

Lemma insert_sorted_perm (x : string) (l : list string) :
  Permutation (x :: l) (insert_sorted x l).
Proof.
  induction l as [|y l IH]; cbn [insert_sorted]; [reflexivity|].
  destruct (String.leb x y); [reflexivity|].
  rewrite perm_swap. now apply perm_skip.
Qed.

Lemma sorted_perm (l : list string) : Permutation l (sorted l).
Proof.
  induction l as [|x l IH]; [reflexivity|].
  cbn [sorted fold_right]. fold (sorted l).
  rewrite <- insert_sorted_perm. now apply perm_skip.
Qed.

Lemma insert_sorted_sorted (x : string) (l : list string) :
  StronglySorted str_le l -> StronglySorted str_le (insert_sorted x l).
Proof.
  induction 1 as [|y l Hl IH Hy]; cbn [insert_sorted].
  - repeat constructor.
  - destruct (String.leb x y) eqn:E.
    + constructor; [now constructor|].
      constructor; [exact E|].
      eapply Forall_impl; [|exact Hy].
      intros z Hz. now apply str_le_trans with y.
    + constructor; [exact IH|].
      apply (Permutation_Forall (insert_sorted_perm x l)).
      constructor; [|exact Hy].
      destruct (String.leb_total x y) as [H|H]; [congruence | exact H].
Qed.

Lemma sorted_sorted (l : list string) : StronglySorted str_le (sorted l).
Proof.
  induction l as [|x l IH]; [constructor|].
  now apply insert_sorted_sorted.
Qed.

(** An ascending arrangement of given strings is unique, so [sorted] is
    what any sorting algorithm, stable or not, returns. *)
Lemma sorted_unique (l l' : list string) :
  Permutation l l' -> StronglySorted str_le l -> StronglySorted str_le l' ->
  l = l'.
Proof.
  revert l'. induction l as [|a l IH]; intros l' Hp Hs Hs'.
  - now apply Permutation_nil in Hp.
  - destruct l' as [|b l'];
      [now apply Permutation_sym, Permutation_nil in Hp|].
    inversion Hs as [|? ? Hl Ha]; inversion Hs' as [|? ? Hl' Hb]; subst.
    assert (a = b) as ->.
    { assert (Hin : In a (b :: l'))
        by (eapply Permutation_in; [exact Hp | now left]).
      assert (Hin' : In b (a :: l))
        by (eapply Permutation_in;
            [apply Permutation_sym; exact Hp | now left]).
      destruct Hin as [->|Hin]; [reflexivity|].
      destruct Hin' as [->|Hin']; [reflexivity|].
      rewrite Forall_forall in Ha, Hb.
      apply String.leb_antisym; [now apply Ha | now apply Hb]. }
    f_equal. apply IH; [now apply Permutation_cons_inv in Hp | | ];
      assumption.
Qed.

End Sorting.

(** ** Properties of the extractor *)

(** C8: [parse_file] returns a table for every sequence of lines and every
    level set, never an exception, with at most one entry per line; the
    tokens of a line that starts with a hash are never empty, so
    [tokens[0]] always yields the marker. *)
Theorem parse_file_total (lines headings : list string) :
  (exists toc,
      parse_file lines headings = inr toc
      /\ (List.length toc <= List.length lines)%nat)
  /\ (forall line,
         startswith line "#" = true ->
         exists marker rest,
           split (rstrip line) = marker :: rest
           /\ index (split (rstrip line)) 0 = inr marker).
Proof.
  split.
  - destruct (parse_file_shape headings lines) as (toc & _ & H & Hlen).
    now exists toc.
  - intros line Hh.
    destruct (hash_line_tokens line Hh) as (marker & rest & E).
    exists marker, rest. rewrite E. split; [reflexivity | apply index_0].
Qed.

Lemma parse_file_total_witness :
  exists marker rest,
    split (rstrip (ln "## Usage")) = marker :: rest
    /\ index (split (rstrip (ln "## Usage"))) 0 = inr marker.
Proof.
  exact (proj2 (parse_file_total [ln "## Usage"] WHITELIST)
           (ln "## Usage") eq_refl).
Defined.

(** C1: after any lines [pre], the flag of the loop says whether a fenced
    block is open; a line beginning with three backticks toggles the flag
    and adds no entry; while a block is open no line adds an entry,
    whatever its marker, and removing such a line that is not a fence
    leaves the result of [parse_file] unchanged. *)
Theorem fenced_lines_emit_nothing (headings pre : list string) :
  exists toc,
    parse_lines headings initial pre
    = inr (LoopState (fence_open pre) toc)
    /\ (forall tail,
           parse_lines headings initial (pre ++ [(fence ++ tail)%string])
           = inr (LoopState (negb (fence_open pre)) toc))
    /\ (forall line,
           fence_open pre = true ->
           parse_lines headings initial (pre ++ [line])
           = inr (LoopState (fence_open (pre ++ [line])) toc))
    /\ (forall line post,
           fence_open pre = true -> is_fence line = false ->
           parse_file (pre ++ line :: post) headings
           = parse_file (pre ++ post) headings).
Proof.
  destruct (parse_file_shape headings pre) as (toc & Hpre & _).
  exists toc. split; [exact Hpre|].
  assert (Hone : forall line,
             (is_fence line = true \/ fence_open pre = true) ->
             parse_lines headings initial (pre ++ [line])
             = inr (LoopState (xorb (fence_open pre) (is_fence line)) toc)).
  { intros line Hcase. rewrite parse_lines_app, Hpre.
    cbn [parse_lines]. rewrite parse_line_frame.
    destruct (parse_line_shape headings (fence_open pre) line)
      as (e & -> & _ & Hin & Hfence).
    assert (e = []) as ->.
    { destruct Hcase as [Hf|Ho]; [now apply Hfence|].
      destruct (is_fence line) eqn:Hf; [now apply Hfence|].
      apply Hin. now rewrite Ho. }
    cbn. now rewrite app_nil_r. }
  repeat split.
  - intros tail. rewrite Hone by (left; apply is_fence_append).
    rewrite is_fence_append. now destruct (fence_open pre).
  - intros line Ho. rewrite Hone by now right.
    rewrite fence_open_app, fence_open_cons.
    unfold fence_open at 3. cbn. now rewrite xorb_false_r.
  - intros line post Ho Hnf. unfold parse_file.
    replace (pre ++ line :: post) with ((pre ++ [line]) ++ post)
      by now rewrite <- app_assoc.
    rewrite (parse_lines_app _ _ (pre ++ [line])), Hone by now right.
    rewrite parse_lines_app, Hpre, Hnf, xorb_false_r. reflexivity.
Qed.

Lemma fenced_lines_emit_nothing_witness :
  parse_lines WHITELIST initial [ln "```bash"; ln "# not a heading"]
  = inr (LoopState true [])
  /\ parse_file [ln "```bash"; ln "# not a heading"; ln "```"; ln "# Usage"]
       WHITELIST
     = parse_file [ln "```bash"; ln "```"; ln "# Usage"] WHITELIST.
Proof.
  destruct (fenced_lines_emit_nothing WHITELIST [ln "```bash"])
    as (toc & Hpre & _ & Hin & Hdrop).
  split.
  - assert (toc = []) as -> by (vm_compute in Hpre; congruence).
    exact (Hin (ln "# not a heading") eq_refl).
  - exact (Hdrop (ln "# not a heading") [ln "```"; ln "# Usage"]
             eq_refl eq_refl).
Defined.

(** C2: a line that starts with a hash, read while no fenced block is
    open, adds exactly one entry when its first whitespace-delimited token
    is in the level set and none otherwise; the entries of the lines before
    it come first and those of the lines after it last. *)
Theorem heading_outside_fence (headings pre : list string) (line : string)
  (post : list string) :
  fence_open pre = false -> startswith line "#" = true ->
  exists marker rest before after,
    split line = marker :: rest
    /\ parse_file pre headings = inr before
    /\ parse_file post headings = inr after
    /\ parse_file (pre ++ line :: post) headings
       = inr (before ++
              (if str_in marker headings
               then [toc_line (join " " rest) (lower (join "-" rest))]
               else []) ++ after).
Proof.
  intros Hout Hh.
  destruct (hash_line_tokens line Hh) as (marker & rest & Htok).
  rewrite split_rstrip in Htok.
  destruct (parse_file_shape headings pre) as (before & Hpre & Hb & _).
  destruct (parse_file_shape headings post) as (after & Hpost & Ha & _).
  exists marker, rest, before, after. repeat split; try assumption.
  unfold parse_file. rewrite parse_lines_app, Hpre, Hout.
  cbn [parse_lines].
  rewrite (parse_line_heading headings (LoopState false before) line marker
             rest eq_refl Hh Htok).
  cbn [table_of_contents]. rewrite parse_lines_frame.
  fold initial. rewrite Hpost. cbn. now rewrite app_assoc.
Qed.

Lemma heading_outside_fence_witness :
  exists marker rest before after,
    split (ln "## Installation") = marker :: rest
    /\ parse_file [ln "# My project name"; ln "some text"] ["##"]
       = inr before
    /\ parse_file [ln "```bash"; ln "# no"; ln "```"; ln "## Usage"] ["##"]
       = inr after
    /\ parse_file
         ([ln "# My project name"; ln "some text"] ++
          ln "## Installation" ::
          [ln "```bash"; ln "# no"; ln "```"; ln "## Usage"]) ["##"]
       = inr (before ++
              (if str_in marker ["##"]
               then [toc_line (join " " rest) (lower (join "-" rest))]
               else []) ++ after).
Proof.
  exact (heading_outside_fence ["##"]
           [ln "# My project name"; ln "some text"] (ln "## Installation")
           [ln "```bash"; ln "# no"; ln "```"; ln "## Usage"]
           eq_refl eq_refl).
Defined.

(** C3: for a kept heading line the entry is made of the title, the tokens
    after the marker joined by single spaces, and of the anchor, the same
    tokens joined by hyphens and lowercased; the title splits back into
    those tokens, the anchor has one hyphen between consecutive lowercased
    tokens, however many spaces the line had: "My Project Name" gives
    "my-project-name" and "Setup" gives "setup". *)
Theorem title_and_anchor (headings : list string) (st : loop_state)
  (line marker : string) (rest : list string) :
  fenced_code st = false -> startswith line "#" = true ->
  split line = marker :: rest -> str_in marker headings = true ->
  parse_line headings st line
  = inr (LoopState false
           (table_of_contents st ++
              [toc_line (join " " rest) (lower (join "-" rest))]))
  /\ split (join " " rest) = rest
  /\ lower (join "-" rest) = join "-" (map lower rest)
  /\ parse_file [ln "#   My  Project   Name  "] WHITELIST
     = inr ["[My Project Name](#my-project-name)"]
  /\ parse_file [ln "## Setup"] WHITELIST = inr ["[Setup](#setup)"].
Proof.
  intros Hf Hh Htok Hin. repeat split.
  - rewrite (parse_line_heading headings st line marker rest Hf Hh Htok).
    now rewrite Hin.
  - apply split_join.
    pose proof (split_tokens line) as Hall. rewrite Htok in Hall.
    now inversion Hall.
  - apply lower_join.
Qed.

Lemma title_and_anchor_witness :
  parse_line ["#"; "###"] (LoopState false ["[Intro](#intro)"])
    (ln "###  Getting   Started")
  = inr (LoopState false
           ["[Intro](#intro)"; "[Getting Started](#getting-started)"]).
Proof.
  exact (proj1 (title_and_anchor ["#"; "###"]
                  (LoopState false ["[Intro](#intro)"])
                  (ln "###  Getting   Started") "###" ["Getting"; "Started"]
                  eq_refl eq_refl eq_refl eq_refl)).
Defined.

(** C7: a heading line whose marker is in the level set and which has no
    token after the marker is still emitted, as the entry with empty title
    and empty anchor; so is the line "##". *)
Theorem empty_heading_emitted (headings : list string) (st : loop_state)
  (line marker : string) :
  fenced_code st = false -> startswith line "#" = true ->
  split line = [marker] -> str_in marker headings = true ->
  parse_line headings st line
  = inr (LoopState false
           (table_of_contents st ++ [toc_line EmptyString EmptyString]))
  /\ toc_line EmptyString EmptyString = "[](#)"
  /\ parse_file ["##"] WHITELIST = inr ["[](#)"]
  /\ parse_file [ln "##  "] ["##"] = inr ["[](#)"].
Proof.
  intros Hf Hh Htok Hin. repeat split.
  rewrite (parse_line_heading headings st line marker [] Hf Hh Htok).
  now rewrite Hin.
Qed.

Lemma empty_heading_emitted_witness :
  parse_line WHITELIST (LoopState false ["[Intro](#intro)"]) (ln "####")
  = inr (LoopState false ["[Intro](#intro)"; "[](#)"]).
Proof.
  exact (proj1 (empty_heading_emitted WHITELIST
                  (LoopState false ["[Intro](#intro)"]) (ln "####") "####"
                  eq_refl eq_refl eq_refl eq_refl)).
Defined.

(** ** Runs of [main] *)

Section Runs.

Lemma world_eta (w : world) :
  World (stdout w ++ []) (win_clipboard w) = w.
Proof. destruct w. cbn. now rewrite app_nil_r. Qed.

Lemma print_each_run (l : list string) (w : world) :
  print_each l w = (inr tt, World (stdout w ++ l) (win_clipboard w)).
Proof.
  revert w. induction l as [|x l IH]; intros w; cbn [print_each].
  - unfold ret. now rewrite world_eta.
  - unfold bind, print. rewrite IH. cbn. now rewrite <- app_assoc.
Qed.

(** Resolution of the whitelist returns a non-empty level set, prints at
    most one diagnostic and leaves the clipboard alone. *)
Lemma get_heading_whitelist_run (args : option (list Z)) (w : world) :
  exists hw diag,
    _get_heading_whitelist args w
    = (inr hw, World (stdout w ++ diag) (win_clipboard w))
    /\ hw <> []
    /\ (diag = [] \/ exists i, diag = [invalid_argument i]).
Proof.
  unfold _get_heading_whitelist.
  destruct args as [[|i l]|].
  - exists WHITELIST, []. unfold bind, ret. rewrite world_eta.
    repeat split; [discriminate | now left].
  - destruct (whitelist_loop (i :: l) []) as [uw [j|]].
    + exists (match uw with [] => WHITELIST | _ => uw end),
        [invalid_argument j].
      unfold bind, print, ret. cbn. repeat split.
      * destruct uw; discriminate.
      * right. now exists j.
    + exists (match uw with [] => WHITELIST | _ => uw end), [].
      unfold bind, ret. rewrite world_eta. repeat split.
      * destruct uw; discriminate.
      * now left.
  - exists WHITELIST, []. unfold bind, ret. rewrite world_eta.
    repeat split; [discriminate | now left].
Qed.

Lemma valid_path_run (fs : file_system) (p : string) (w : world) :
  _valid_path fs p w
  = if negb (path_exists fs p) then
      (inr false,
       World (stdout w ++ ["ERROR:  Invalid path or destination."])
         (win_clipboard w))
    else if negb (suffix_ok fs p) then
      (inr false,
       World (stdout w ++
                ["ERROR:  Expected file format is '.md' or '.markdown'"])
         (win_clipboard w))
    else (inr true, w).
Proof.
  unfold _valid_path, suffix_ok.
  destruct (negb (path_exists fs p)); [reflexivity|].
  destruct (negb (str_in _ _)); reflexivity.
Qed.

(** What a run of [main] does, step by step, from the world [w1] that
    the resolution of the whitelist leaves. *)
Lemma main_run (fs : file_system) (args : arguments) (w w1 : world)
  (hw : list string) :
  _get_heading_whitelist (whitelist args) w = (inr hw, w1) ->
  main fs args w
  = if negb (path_exists fs (path args)) then
      (inr 1%Z,
       World (stdout w1 ++ ["ERROR:  Invalid path or destination."])
         (win_clipboard w1))
    else if negb (suffix_ok fs (path args)) then
      (inr 1%Z,
       World (stdout w1 ++
                ["ERROR:  Expected file format is '.md' or '.markdown'"])
         (win_clipboard w1))
    else
      match read_lines fs (path args) with
      | inl strerror =>
          (inr 1%Z, World (stdout w1 ++ [strerror]) (win_clipboard w1))
      | inr file_handle =>
          match parse_file file_handle hw with
          | inl e => (inl e, w1)
          | inr [] =>
              (inr 1%Z,
               World (stdout w1 ++ ["No Headers found."])
                 (win_clipboard w1))
          | inr results =>
              let final :=
                if alphabetical args then sorted results else results in
              (inr 0%Z,
               World (stdout w1 ++ if output args then final else [])
                 (if clipboard args then Some (join newline final)
                  else win_clipboard w1))
          end
      end.
Proof.
  intros Hw. unfold main. unfold bind at 1. rewrite Hw.
  unfold bind at 1. rewrite valid_path_run.
  destruct (negb (path_exists fs (path args))); [reflexivity|].
  destruct (negb (suffix_ok fs (path args))); [reflexivity|].
  cbn [negb]. unfold bind at 1, try_OSError, open_and_parse.
  destruct (read_lines fs (path args)) as [strerror|file_handle].
  - reflexivity.
  - unfold bind at 1.
    destruct (parse_file_shape hw file_handle) as (toc & _ & -> & _).
    destruct toc as [|r results].
    + reflexivity.
    + cbn [ret]. unfold bind.
      set (final := if alphabetical args then _ else _).
      destruct (output args), (clipboard args);
        rewrite ?print_each_run; unfold set_win_clipboard, ret; cbn;
        rewrite ?app_nil_r; try reflexivity.
      now destruct w1.
Qed.

End Runs.

(** ** Properties of the command *)

Lemma index_whitelist (n : Z) :
  (1 <= n <= 6)%Z -> index WHITELIST (n - 1) = inr (marker_of_level n).
Proof.
  intros Hn.
  assert (n = 1 \/ n = 2 \/ n = 3 \/ n = 4 \/ n = 5 \/ n = 6)%Z
    as [->|[->|[->|[->|[->| ->]]]]] by lia; reflexivity.
Qed.

(** X9: a non-empty whitelist of levels that are all between 1 and 6 is
    resolved to their markers, level [n] to [n] hashes, in the order given
    and with repetitions kept, and nothing is printed. *)
Lemma whitelist_of_valid_levels (l : list Z) (w : world) :
  l <> [] -> Forall (fun n => 1 <= n <= 6)%Z l ->
  _get_heading_whitelist (Some l) w = (inr (map marker_of_level l), w).
Proof.
  intros Hne Hall.
  assert (Hloop : forall acc,
             whitelist_loop l acc = (acc ++ map marker_of_level l, None)).
  { clear Hne. induction Hall as [|n l Hn Hl IH]; intros acc;
      cbn [whitelist_loop map].
    - now rewrite app_nil_r.
    - rewrite (index_whitelist n Hn), IH, <- app_assoc. reflexivity. }
  unfold _get_heading_whitelist. destruct l as [|n l]; [congruence|].
  rewrite Hloop. reflexivity.
Qed.

(** C4: the code at whitelists with an invalid integer.  At [7; 2] the
    loop stops at 7, the valid 2 is lost and the result is the default
    set; at [2; 9; 4; 8] only 9 is reported and the valid 4 is lost; at
    [0] and [-5], outside 1-6, a marker is returned and nothing is
    reported. *)
Theorem whitelist_stops_at_first_invalid :
  _get_heading_whitelist (Some [7; 2]%Z) empty_world
  = (inr WHITELIST, World ["[-w] Invalid argument: 7"] None)
  /\ _get_heading_whitelist (Some [2; 9; 4; 8]%Z) empty_world
     = (inr ["##"], World ["[-w] Invalid argument: 9"] None)
  /\ _get_heading_whitelist (Some [0]%Z) empty_world
     = (inr ["######"], empty_world)
  /\ _get_heading_whitelist (Some [-5]%Z) empty_world
     = (inr ["#"], empty_world).
Proof. repeat split. Qed.

(** C10: validation succeeds for every existing path whose lowercased
    suffix is ".md" or ".markdown", whatever the case of the suffix
    (".MD", ".Markdown"), and fails, printing one error message, for every
    path whose lowercased suffix is neither. *)
Theorem valid_path_suffix_case_insensitive (fs : file_system) (p : string)
  (w : world) :
  (path_exists fs p = true ->
   lower (path_suffix fs p) = ".md"
   \/ lower (path_suffix fs p) = ".markdown" ->
   _valid_path fs p w = (inr true, w))
  /\ (lower (path_suffix fs p) <> ".md" ->
      lower (path_suffix fs p) <> ".markdown" ->
      exists msg,
        _valid_path fs p w
        = (inr false, World (stdout w ++ [msg]) (win_clipboard w)))
  /\ lower ".MD" = ".md" /\ lower ".Markdown" = ".markdown".
Proof.
  rewrite valid_path_run. unfold suffix_ok, str_in. cbn [existsb].
  repeat split.
  - intros -> [-> | ->]; reflexivity.
  - intros H1 H2. apply String.eqb_neq in H1, H2. rewrite H1, H2.
    destruct (negb (path_exists fs p)); cbn; eauto.
Qed.

Lemma valid_path_suffix_case_insensitive_witness :
  _valid_path (one_file ".MD" []) "README.MD" empty_world
  = (inr true, empty_world)
  /\ exists msg,
       _valid_path (one_file ".txt" []) "notes.txt" empty_world
       = (inr false, World ([] ++ [msg]) None).
Proof.
  split.
  - exact (proj1 (valid_path_suffix_case_insensitive (one_file ".MD" [])
                    "README.MD" empty_world) eq_refl (or_introl eq_refl)).
  - refine (proj1 (proj2 (valid_path_suffix_case_insensitive
                            (one_file ".txt" []) "notes.txt" empty_world))
              _ _); discriminate.
Defined.

(** C9: when a run fails (the path does not exist, its suffix is wrong,
    reading raises [OSError], or no entry is extracted) [main] returns 1,
    the clipboard is as it was and the console has gained only the one
    error message after what the resolution of the whitelist printed; a
    run that does not fail has extracted at least one entry. *)
Theorem failure_leaves_no_output (fs : file_system) (args : arguments)
  (w w1 : world) (hw : list string) :
  _get_heading_whitelist (whitelist args) w = (inr hw, w1) ->
  (run_fails fs args hw = true ->
   exists msg,
     main fs args w
     = (inr 1%Z, World (stdout w1 ++ [msg]) (win_clipboard w))
     /\ (msg = "ERROR:  Invalid path or destination."
         \/ msg = "ERROR:  Expected file format is '.md' or '.markdown'"
         \/ read_lines fs (path args) = inl msg
         \/ msg = "No Headers found."))
  /\ (run_fails fs args hw = false ->
      exists file_handle results,
        read_lines fs (path args) = inr file_handle
        /\ parse_file file_handle hw = inr results
        /\ results <> []
        /\ fst (main fs args w) = inr 0%Z)
  /\ win_clipboard w1 = win_clipboard w
  /\ exists diag,
       stdout w1 = stdout w ++ diag
       /\ (diag = [] \/ exists i, diag = [invalid_argument i]).
Proof.
  intros Hw. rewrite (main_run fs args w w1 hw Hw). unfold run_fails.
  destruct (get_heading_whitelist_run (whitelist args) w)
    as (hw' & diag & Hw' & _ & Hdiag).
  rewrite Hw in Hw'. injection Hw' as <- ->. cbn [win_clipboard stdout].
  repeat split; [| |now exists diag].
  - destruct (negb (path_exists fs (path args))); [eauto 6|].
    destruct (negb (suffix_ok fs (path args))); [eauto 6|].
    destruct (read_lines fs (path args)) as [strerror|file_handle];
      [eauto 6|].
    destruct (parse_file file_handle hw) as [e|[|r results]];
      cbn; try discriminate. eauto 7.
  - destruct (negb (path_exists fs (path args))); [discriminate|].
    destruct (negb (suffix_ok fs (path args))); [discriminate|].
    destruct (read_lines fs (path args)) as [strerror|file_handle];
      [discriminate|].
    destruct (parse_file_shape hw file_handle) as (toc & _ & Hp & _).
    rewrite Hp.
    destruct toc as [|r results]; [discriminate|]. intros _.
    exists file_handle, (r :: results).
    split; [reflexivity|]. split; [exact Hp|].
    split; [discriminate | reflexivity].
Qed.

Lemma failure_leaves_no_output_witness :
  exists msg,
    main (one_file ".md" [ln "plain text"; ln "```"; ln "# inside"])
      (Namespace "README.md" true true true (Some [1; 9]%Z))
      (World [] (Some "kept"))
    = (inr 1%Z,
       World (["[-w] Invalid argument: 9"] ++ [msg]) (Some "kept"))
    /\ (msg = "ERROR:  Invalid path or destination."
        \/ msg = "ERROR:  Expected file format is '.md' or '.markdown'"
        \/ inr [ln "plain text"; ln "```"; ln "# inside"] = inl msg
        \/ msg = "No Headers found.").
Proof.
  exact (proj1 (failure_leaves_no_output
                  (one_file ".md" [ln "plain text"; ln "```"; ln "# inside"])
                  (Namespace "README.md" true true true (Some [1; 9]%Z))
                  (World [] (Some "kept"))
                  (World ["[-w] Invalid argument: 9"] (Some "kept"))
                  ["#"] eq_refl) eq_refl).
Defined.

(** C6: the code at failing runs.  [main] returns 1 with its message, but
    the [__main__] block drops the value that [main] returns: whatever the
    run, the script ends normally and the exit status is 0. *)
Theorem exit_status_ignores_main :
  (forall fs args w, exit_status (fst (script fs args w)) = 0%Z)
  /\ main no_files (Namespace "missing.md" false true true None) empty_world
     = (inr 1%Z, World ["ERROR:  Invalid path or destination."] None)
  /\ main (one_file ".md" [ln "plain text"])
       (Namespace "README.md" false true true None) empty_world
     = (inr 1%Z, World ["No Headers found."] None)
  /\ main (unreadable_file ".md" "Permission denied")
       (Namespace "README.md" false true true None) empty_world
     = (inr 1%Z, World ["Permission denied"] None)
  /\ main (one_file ".md" [ln "# Title"])
       (Namespace "README.md" false true true None) empty_world
     = (inr 0%Z, World ["[Title](#title)"] (Some "[Title](#title)")).
Proof.
  repeat split.
  intros fs args w. unfold script, bind.
  destruct (get_heading_whitelist_run (whitelist args) w)
    as (hw & diag & Hw & _).
  rewrite (main_run fs args w _ hw Hw).
  destruct (negb (path_exists fs (path args))); [reflexivity|].
  destruct (negb (suffix_ok fs (path args))); [reflexivity|].
  destruct (read_lines fs (path args)) as [strerror|file_handle];
    [reflexivity|].
  destruct (parse_file_shape hw file_handle) as (toc & _ & -> & _).
  destruct toc; reflexivity.
Qed.

(** C5: with [alphabetical] the entries printed and copied are the
    extracted lines "[title](#anchor)" in ascending code-point order of the
    whole line: a permutation of the extracted lines, sorted, and the only
    such list; without it they are the extracted lines in document
    order. *)
Theorem alphabetical_sorts_rendered_lines (fs : file_system)
  (args : arguments) (w w1 : world) (hw file_handle results : list string) :
  _get_heading_whitelist (whitelist args) w = (inr hw, w1) ->
  path_exists fs (path args) = true -> suffix_ok fs (path args) = true ->
  read_lines fs (path args) = inr file_handle ->
  parse_file file_handle hw = inr results -> results <> [] ->
  let final := if alphabetical args then sorted results else results in
  main fs args w
  = (inr 0%Z,
     World (stdout w1 ++ if output args then final else [])
       (if clipboard args then Some (join newline final)
        else win_clipboard w1))
  /\ Permutation results (sorted results)
  /\ StronglySorted str_le (sorted results)
  /\ (forall l,
         Permutation results l -> StronglySorted str_le l ->
         l = sorted results).
Proof.
  intros Hw He Hs Hr Hp Hne final.
  rewrite (main_run fs args w w1 hw Hw), He, Hs, Hr, Hp. cbn [negb].
  repeat split.
  - destruct results; [congruence | reflexivity].
  - apply sorted_perm.
  - apply sorted_sorted.
  - intros l Hl Hsl. apply sorted_unique; [|assumption|apply sorted_sorted].
    rewrite <- Hl. apply sorted_perm.
Qed.

Lemma alphabetical_sorts_rendered_lines_witness :
  main (one_file ".md" [ln "# Usage"; ln "# Setup"; ln "# Setup Guide"])
    (Namespace "README.md" true false true None) empty_world
  = (inr 0%Z,
     World ([] ++ sorted ["[Usage](#usage)"; "[Setup](#setup)";
                          "[Setup Guide](#setup-guide)"]) None).
Proof.
  refine (proj1 (alphabetical_sorts_rendered_lines
                   (one_file ".md"
                      [ln "# Usage"; ln "# Setup"; ln "# Setup Guide"])
                   (Namespace "README.md" true false true None)
                   empty_world empty_world WHITELIST
                   [ln "# Usage"; ln "# Setup"; ln "# Setup Guide"]
                   ["[Usage](#usage)"; "[Setup](#setup)";
                    "[Setup Guide](#setup-guide)"]
                   eq_refl eq_refl eq_refl eq_refl eq_refl _)).
  discriminate.
Defined.

(** C5, as stated, fails: the titles "Setup" and "Setup Guide" are in
    title order in the document, and alphabetical mode prints the entry of
    "Setup Guide" first, since a space sorts before the closing bracket. *)
Lemma alphabetical_not_by_title :
  let entries := [("Setup", "setup"); ("Setup Guide", "setup-guide")] in
  parse_file [ln "# Setup"; ln "# Setup Guide"] WHITELIST
  = inr (map render entries)
  /\ sort_by_title entries = entries
  /\ stdout (snd (main (one_file ".md" [ln "# Setup"; ln "# Setup Guide"])
                    (Namespace "README.md" true true true None)
                    empty_world))
     = ["[Setup Guide](#setup-guide)"; "[Setup](#setup)"]
  /\ stdout (snd (main (one_file ".md" [ln "# Setup"; ln "# Setup Guide"])
                    (Namespace "README.md" true true true None)
                    empty_world))
     <> map render (sort_by_title entries).
Proof. repeat split. discriminate. Qed.

(** ** Further properties of the extractor *)

Section LoopLaws.

Variable headings : list string.

Lemma loop_state_eta (st : loop_state) :
  LoopState (fenced_code st) (table_of_contents st) = st.
Proof. now destruct st. Qed.

Lemma parse_line_irrelevant (st : loop_state) (line : string) :
  relevant line = false -> parse_line headings st line = inr st.
Proof.
  unfold relevant, is_fence. intros [Hh Hf]%orb_false_iff.
  unfold parse_line. rewrite Hh, Hf, andb_false_r.
  now rewrite loop_state_eta.
Qed.

Lemma parse_lines_filter (lines : list string) (st : loop_state) :
  parse_lines headings st (filter relevant lines)
  = parse_lines headings st lines.
Proof.
  revert st. induction lines as [|l lines IH]; intros st; [reflexivity|].
  cbn [filter parse_lines]. destruct (relevant l) eqn:E.
  - cbn [parse_lines]. destruct (parse_line headings st l); [reflexivity|].
    apply IH.
  - rewrite (parse_line_irrelevant st l E). apply IH.
Qed.

Lemma parse_line_in_fence (toc : list string) (line : string) :
  is_fence line = false ->
  parse_line headings (LoopState true toc) line = inr (LoopState true toc).
Proof.
  unfold is_fence, parse_line. intros ->. reflexivity.
Qed.

Lemma parse_lines_in_fence (lines toc : list string) :
  forallb (fun l => negb (is_fence l)) lines = true ->
  parse_lines headings (LoopState true toc) lines
  = inr (LoopState true toc).
Proof.
  induction lines as [|l lines IH]; [reflexivity|].
  cbn [forallb]. intros [Hl Hrest]%andb_true_iff.
  apply negb_true_iff in Hl.
  cbn [parse_lines]. rewrite (parse_line_in_fence toc l Hl). now apply IH.
Qed.

Lemma parse_line_no_hash (f : bool) (toc : list string) (line : string) :
  startswith line "#" = false ->
  parse_line headings (LoopState f toc) line
  = inr (LoopState (xorb f (is_fence line)) toc).
Proof.
  unfold parse_line, is_fence. intros ->. rewrite andb_false_r.
  cbn [fenced_code table_of_contents].
  now destruct (startswith line fence), f.
Qed.

Lemma parse_lines_no_hash (lines : list string) (f : bool)
  (toc : list string) :
  forallb (fun l => negb (startswith l "#")) lines = true ->
  exists f',
    parse_lines headings (LoopState f toc) lines = inr (LoopState f' toc).
Proof.
  revert f. induction lines as [|l lines IH]; intros f.
  - now exists f.
  - cbn [forallb]. intros [Hl Hrest]%andb_true_iff.
    apply negb_true_iff in Hl.
    cbn [parse_lines]. rewrite (parse_line_no_hash f toc l Hl).
    now apply IH.
Qed.

(** Without fence lines the table is the entries of the lines, in
    order. *)
Lemma parse_lines_flat_map (lines toc : list string) :
  forallb (fun l => negb (is_fence l)) lines = true ->
  parse_lines headings (LoopState false toc) lines
  = inr (LoopState false (toc ++ flat_map (entry_of headings) lines)).
Proof.
  revert toc. induction lines as [|l lines IH]; intros toc.
  - intros _. cbn. now rewrite app_nil_r.
  - cbn [forallb]. intros [Hl Hrest]%andb_true_iff.
    apply negb_true_iff in Hl.
    cbn [parse_lines flat_map]. rewrite parse_line_frame.
    unfold entry_of, initial.
    destruct (parse_line_shape headings false l) as (e & -> & _).
    rewrite Hl. cbn [fenced_code table_of_contents xorb].
    rewrite (IH _ Hrest), app_assoc. reflexivity.
Qed.

End LoopLaws.

(** X1: only the lines that start with a hash or with three backticks
    count: dropping every other line, wherever it stands, leaves the
    result of [parse_file] unchanged. *)
Theorem only_hash_and_fence_lines_matter (lines headings : list string) :
  parse_file (filter relevant lines) headings = parse_file lines headings.
Proof.
  unfold parse_file. now rewrite parse_lines_filter.
Qed.

(** X2: when no line starts with a hash the result is the empty table,
    whatever the level set and whatever fences the text has. *)
Theorem no_heading_lines_no_entries (lines headings : list string) :
  forallb (fun l => negb (startswith l "#")) lines = true ->
  parse_file lines headings = inr [].
Proof.
  intros H. unfold parse_file, initial.
  destruct (parse_lines_no_hash headings lines false [] H) as (f & ->).
  reflexivity.
Qed.

Lemma no_heading_lines_no_entries_witness :
  parse_file [ln "Title"; ln "====="; ln " # indented"; ln "```";
              ln "text #1"] WHITELIST
  = inr [].
Proof.
  exact (no_heading_lines_no_entries
           [ln "Title"; ln "====="; ln " # indented"; ln "```";
            ln "text #1"] WHITELIST eq_refl).
Defined.

(** X3: a fence that is never closed hides the rest of the text: when a
    block is open after [pre] and no later line begins with three
    backticks, the lines after [pre] add nothing. *)
Theorem unclosed_fence_hides_rest (headings pre post : list string) :
  fence_open pre = true ->
  forallb (fun l => negb (is_fence l)) post = true ->
  parse_file (pre ++ post) headings = parse_file pre headings.
Proof.
  intros Ho Hpost. unfold parse_file. rewrite parse_lines_app.
  destruct (parse_file_shape headings pre) as (toc & -> & _).
  rewrite Ho, (parse_lines_in_fence headings post toc Hpost). reflexivity.
Qed.

Lemma unclosed_fence_hides_rest_witness :
  parse_file ([ln "# A"; ln "```sh"] ++ [ln "# B"; ln "## C"]) WHITELIST
  = parse_file [ln "# A"; ln "```sh"] WHITELIST.
Proof.
  exact (unclosed_fence_hides_rest WHITELIST [ln "# A"; ln "```sh"]
           [ln "# B"; ln "## C"] eq_refl eq_refl).
Defined.

(** X4: extraction composes: when no fenced block is left open at the end
    of [a], the table of [a ++ b] is the table of [a] followed by the
    table of [b]. *)
Theorem parse_file_app (headings a b : list string) :
  fence_open a = false ->
  exists ta tb,
    parse_file a headings = inr ta
    /\ parse_file b headings = inr tb
    /\ parse_file (a ++ b) headings = inr (ta ++ tb).
Proof.
  intros Ha.
  destruct (parse_file_shape headings a) as (ta & Hpa & Hfa & _).
  destruct (parse_file_shape headings b) as (tb & Hpb & Hfb & _).
  exists ta, tb. repeat split; try assumption.
  unfold parse_file. rewrite parse_lines_app, Hpa, Ha, parse_lines_frame.
  fold initial. rewrite Hpb. reflexivity.
Qed.

Lemma parse_file_app_witness :
  exists ta tb,
    parse_file [ln "# A"; ln "```"; ln "# x"; ln "```"] ["#"] = inr ta
    /\ parse_file [ln "# A"; ln "## B"] ["#"] = inr tb
    /\ parse_file ([ln "# A"; ln "```"; ln "# x"; ln "```"] ++
                   [ln "# A"; ln "## B"]) ["#"]
       = inr (ta ++ tb).
Proof.
  exact (parse_file_app ["#"] [ln "# A"; ln "```"; ln "# x"; ln "```"]
           [ln "# A"; ln "## B"] eq_refl).
Defined.

Section LevelSet.

Lemma str_in_In (x : string) (l : list string) :
  str_in x l = true <-> In x l.
Proof.
  unfold str_in. rewrite existsb_exists. split.
  - intros (y & Hy & ->%String.eqb_eq). exact Hy.
  - intros H. exists x. split; [exact H | apply String.eqb_refl].
Qed.

Lemma parse_line_ext (h1 h2 : list string) (st : loop_state)
  (line : string) :
  (forall m, str_in m h1 = str_in m h2) ->
  parse_line h1 st line = parse_line h2 st line.
Proof.
  intros H. unfold parse_line.
  destruct (negb _ && _); [|reflexivity].
  destruct (index _ 0); [reflexivity|]. now rewrite H.
Qed.

Lemma parse_lines_ext (h1 h2 : list string) (lines : list string)
  (st : loop_state) :
  (forall m, str_in m h1 = str_in m h2) ->
  parse_lines h1 st lines = parse_lines h2 st lines.
Proof.
  intros H. revert st. induction lines as [|l lines IH]; intros st;
    [reflexivity|].
  cbn [parse_lines]. rewrite (parse_line_ext h1 h2 st l H).
  destruct (parse_line h2 st l); [reflexivity | apply IH].
Qed.

End LevelSet.

(** X5: the level set is used as a set: two lists of markers with the
    same members, in any order and with any repetitions, give the same
    table. *)
Theorem level_set_is_a_set (h1 h2 lines : list string) :
  (forall m, In m h1 <-> In m h2) ->
  parse_file lines h1 = parse_file lines h2.
Proof.
  intros H. unfold parse_file. rewrite (parse_lines_ext h1 h2); [reflexivity|].
  intros m. destruct (str_in m h2) eqn:E.
  - apply str_in_In, H, str_in_In. exact E.
  - destruct (str_in m h1) eqn:E1; [|reflexivity].
    apply str_in_In, H, str_in_In in E1. congruence.
Qed.

Lemma level_set_is_a_set_witness :
  parse_file [ln "# A"; ln "## B"; ln "### C"] ["##"; "#"; "##"]
  = parse_file [ln "# A"; ln "## B"; ln "### C"] ["#"; "##"].
Proof.
  apply (level_set_is_a_set ["##"; "#"; "##"] ["#"; "##"]).
  intros m. simpl. tauto.
Defined.

Section TrailingWhitespace.

Lemma startswith_rstrip (p line : string) :
  no_space p = true -> startswith (rstrip line) p = startswith line p.
Proof.
  revert line. induction p as [|a p IH]; intros line Hp; [reflexivity|].
  cbn [no_space] in Hp. apply andb_true_iff in Hp as [Ha Hp].
  apply negb_true_iff in Ha.
  destruct line as [|b line]; [reflexivity|].
  cbn [rstrip]. destruct (isspace b) eqn:Hb.
  - assert (Ascii.eqb a b = false) as Hab
      by (destruct (Ascii.eqb_spec a b); [congruence | reflexivity]).
    destruct (is_empty (rstrip line)); cbn [andb startswith];
      now rewrite ?Hab.
  - cbn [andb startswith]. now rewrite IH.
Qed.

Lemma parse_line_rstrip (headings : list string) (st : loop_state)
  (line : string) :
  parse_line headings st (rstrip line) = parse_line headings st line.
Proof.
  unfold parse_line, fence.
  rewrite !startswith_rstrip by reflexivity.
  now rewrite (split_rstrip (rstrip line)).
Qed.

Lemma parse_lines_rstrip (headings lines : list string)
  (st : loop_state) :
  parse_lines headings st (map rstrip lines)
  = parse_lines headings st lines.
Proof.
  revert st. induction lines as [|l lines IH]; intros st; [reflexivity|].
  cbn [map parse_lines]. rewrite parse_line_rstrip.
  destruct (parse_line headings st l); [reflexivity | apply IH].
Qed.

End TrailingWhitespace.

(** X6: whitespace at the end of the lines never matters: two texts whose
    lines agree once trailing whitespace is removed (newline, carriage
    return and newline, no terminator on the last line, trailing blanks)
    give the same table. *)
Theorem trailing_whitespace_ignored (headings a b : list string) :
  map rstrip a = map rstrip b ->
  parse_file a headings = parse_file b headings.
Proof.
  intros H. unfold parse_file.
  rewrite <- (parse_lines_rstrip headings a), H, parse_lines_rstrip.
  reflexivity.
Qed.

Lemma trailing_whitespace_ignored_witness :
  parse_file [ln "# A  "; "```" ++ String (ascii_of_N 13) newline; "## B"]%string
    WHITELIST
  = parse_file ["# A"; ln "```"; ln "## B"] WHITELIST.
Proof.
  exact (trailing_whitespace_ignored WHITELIST
           [ln "# A  "; "```" ++ String (ascii_of_N 13) newline; "## B"]%string
           ["# A"; ln "```"; ln "## B"] eq_refl).
Defined.

Section Entries.

Lemma lower_char_isspace (c : ascii) : isspace (lower_char c) = isspace c.
Proof. destruct c as [[] [] [] [] [] [] [] []]; reflexivity. Qed.

Lemma lower_char_idem (c : ascii) : lower_char (lower_char c) = lower_char c.
Proof. destruct c as [[] [] [] [] [] [] [] []]; reflexivity. Qed.

Lemma no_space_lower (s : string) : no_space (lower s) = no_space s.
Proof.
  induction s as [|c s IH]; [reflexivity|].
  cbn [lower no_space]. now rewrite lower_char_isspace, IH.
Qed.

Lemma lower_idem (s : string) : lower (lower s) = lower s.
Proof.
  induction s as [|c s IH]; [reflexivity|].
  cbn [lower]. now rewrite lower_char_idem, IH.
Qed.

Lemma no_space_app (a b : string) :
  no_space (a ++ b) = no_space a && no_space b.
Proof.
  induction a as [|c a IH]; [reflexivity|].
  cbn [append no_space]. now rewrite IH, andb_assoc.
Qed.

Lemma no_space_join_hyphen (tokens : list string) :
  Forall (fun t => is_token t = true) tokens ->
  no_space (join "-" tokens) = true.
Proof.
  unfold join. induction 1 as [|t ts Ht Hts IH]; [reflexivity|].
  apply andb_true_iff in Ht as [_ Ht].
  destruct ts as [|t2 ts]; [exact Ht|].
  change (String.concat "-" (t :: t2 :: ts))
    with (t ++ "-" ++ String.concat "-" (t2 :: ts))%string.
  rewrite !no_space_app, Ht, IH. reflexivity.
Qed.

Lemma join_split_join (tokens : list string) :
  Forall (fun t => is_token t = true) tokens ->
  well_formed_entry
    (toc_line (join " " tokens) (lower (join "-" tokens))).
Proof.
  intros H. exists (join " " tokens). rewrite (split_join tokens H).
  repeat split.
  - rewrite no_space_lower. now apply no_space_join_hyphen.
  - apply lower_idem.
Qed.

Lemma parse_line_well_formed (headings : list string) (st st' : loop_state)
  (line : string) :
  Forall well_formed_entry (table_of_contents st) ->
  parse_line headings st line = inr st' ->
  Forall well_formed_entry (table_of_contents st').
Proof.
  intros Hst. unfold parse_line.
  destruct (negb _ && _).
  - pose proof (split_tokens (rstrip line)) as Htok.
    destruct (split (rstrip line)) as [|marker rest].
    + discriminate.
    + rewrite index_0. cbn [tl].
      destruct (str_in marker headings); intros [= <-]; cbn; [|exact Hst].
      apply Forall_app. split; [exact Hst|].
      constructor; [|constructor].
      apply join_split_join. now inversion Htok.
  - intros [= <-]. exact Hst.
Qed.

Lemma parse_lines_well_formed (headings lines : list string)
  (st st' : loop_state) :
  Forall well_formed_entry (table_of_contents st) ->
  parse_lines headings st lines = inr st' ->
  Forall well_formed_entry (table_of_contents st').
Proof.
  revert st. induction lines as [|l lines IH]; intros st Hst.
  - intros [= <-]. exact Hst.
  - cbn [parse_lines].
    destruct (parse_line headings st l) as [e|st1] eqn:E; [discriminate|].
    apply IH. exact (parse_line_well_formed headings st st1 l Hst E).
Qed.

End Entries.

(** X7: every entry of the table has the form "[title](#anchor)" where
    the title is a sequence of tokens separated by single spaces and the
    anchor is computed from the title alone: its tokens joined by hyphens
    and lowercased; the anchor has no whitespace and lowercasing it again
    changes nothing. *)
Theorem entries_well_formed (lines headings : list string) :
  exists toc,
    parse_file lines headings = inr toc
    /\ Forall well_formed_entry toc.
Proof.
  destruct (parse_file_shape headings lines) as (toc & Hp & Hf & _).
  exists toc. split; [exact Hf|].
  exact (parse_lines_well_formed headings lines initial _
           (Forall_nil _) Hp).
Qed.

(** X8: in a text without fence lines, the order of the lines changes the
    table only by a permutation, so the table that alphabetical mode
    prints, [sorted] of it, does not depend on the order of the
    headings. *)
Theorem alphabetical_ignores_line_order (headings a b : list string) :
  forallb (fun l => negb (is_fence l)) a = true ->
  Permutation a b ->
  exists ta tb,
    parse_file a headings = inr ta
    /\ parse_file b headings = inr tb
    /\ Permutation ta tb
    /\ sorted ta = sorted tb.
Proof.
  intros Ha Hab.
  assert (Hb : forallb (fun l => negb (is_fence l)) b = true).
  { rewrite forallb_forall in *. intros l Hl. apply Ha.
    eapply Permutation_in; [apply Permutation_sym; exact Hab | exact Hl]. }
  exists (flat_map (entry_of headings) a), (flat_map (entry_of headings) b).
  unfold parse_file, initial.
  rewrite (parse_lines_flat_map headings a [] Ha),
    (parse_lines_flat_map headings b [] Hb).
  assert (Hp : Permutation (flat_map (entry_of headings) a)
                 (flat_map (entry_of headings) b))
    by now apply Permutation_flat_map.
  repeat split; [exact Hp|].
  apply sorted_unique; [|apply sorted_sorted|apply sorted_sorted].
  rewrite <- (sorted_perm (flat_map (entry_of headings) a)),
    <- (sorted_perm (flat_map (entry_of headings) b)).
  exact Hp.
Qed.

Lemma alphabetical_ignores_line_order_witness :
  exists ta tb,
    parse_file [ln "# Usage"; ln "text"; ln "# Setup"] WHITELIST = inr ta
    /\ parse_file [ln "text"; ln "# Setup"; ln "# Usage"] WHITELIST
       = inr tb
    /\ Permutation ta tb
    /\ sorted ta = sorted tb.
Proof.
  apply (alphabetical_ignores_line_order WHITELIST
           [ln "# Usage"; ln "text"; ln "# Setup"]
           [ln "text"; ln "# Setup"; ln "# Usage"] eq_refl).
  exact (Permutation_cons_append [ln "text"; ln "# Setup"] (ln "# Usage")).
Defined.

Lemma whitelist_of_valid_levels_witness :
  _get_heading_whitelist (Some [2; 4; 2]%Z) empty_world
  = (inr (map marker_of_level [2; 4; 2]%Z), empty_world).
Proof.
  apply (whitelist_of_valid_levels [2; 4; 2]%Z empty_world).
  - discriminate.
  - repeat constructor; lia.
Defined.

(** ** Further properties of the whitelist *)

Section Whitelist.

Lemma index_accepted (i : Z) :
  accepted i = true -> index WHITELIST (i - 1) = inr (level_marker i).
Proof.
  unfold accepted. intros [H1 H2]%andb_true_iff.
  apply Z.leb_le in H1, H2.
  assert (i = -5 \/ i = -4 \/ i = -3 \/ i = -2 \/ i = -1 \/ i = 0
          \/ i = 1 \/ i = 2 \/ i = 3 \/ i = 4 \/ i = 5 \/ i = 6)%Z
    as [->|[->|[->|[->|[->|[->|[->|[->|[->|[->|[->| ->]]]]]]]]]]] by lia;
    reflexivity.
Qed.

Lemma index_rejected (i : Z) :
  accepted i = false -> index WHITELIST (i - 1) = inl IndexError.
Proof.
  unfold accepted. intros H. unfold index.
  change (Z.of_nat (List.length WHITELIST)) with 6%Z.
  destruct (i - 1 <? 0)%Z eqn:Hneg.
  - apply Z.ltb_lt in Hneg.
    replace ((0 <=? i - 1 + 6) && (i - 1 + 6 <? 6))%Z with false;
      [reflexivity|].
    symmetry. apply andb_false_iff in H as [H|H]; apply Z.leb_gt in H.
    + apply andb_false_iff. left. apply Z.leb_gt. lia.
    + lia.
  - apply Z.ltb_ge in Hneg.
    replace ((0 <=? i - 1) && (i - 1 <? 6))%Z with false; [reflexivity|].
    symmetry. apply andb_false_iff in H as [H|H]; apply Z.leb_gt in H.
    + lia.
    + apply andb_false_iff. right. apply Z.ltb_ge. lia.
Qed.

Lemma level_marker_in (i : Z) :
  accepted i = true -> In (level_marker i) WHITELIST.
Proof.
  unfold accepted. intros [H1 H2]%andb_true_iff.
  apply Z.leb_le in H1, H2.
  assert (i = -5 \/ i = -4 \/ i = -3 \/ i = -2 \/ i = -1 \/ i = 0
          \/ i = 1 \/ i = 2 \/ i = 3 \/ i = 4 \/ i = 5 \/ i = 6)%Z
    as [->|[->|[->|[->|[->|[->|[->|[->|[->|[->|[->| ->]]]]]]]]]]] by lia;
    cbn; tauto.
Qed.

Lemma take_while_accepted (f : Z -> bool) (l : list Z) :
  Forall (fun i => f i = true) (take_while f l).
Proof.
  induction l as [|i l IH]; cbn [take_while]; [constructor|].
  destruct (f i) eqn:E; [now constructor | constructor].
Qed.

(** The loop: the markers of the accepted integers before the first
    rejected one, and that one. *)
Lemma whitelist_loop_law (args : list Z) (acc : list string) :
  whitelist_loop args acc
  = (acc ++ map level_marker (take_while accepted args),
     find (fun i => negb (accepted i)) args).
Proof.
  revert acc. induction args as [|i args IH]; intros acc;
    cbn [whitelist_loop take_while find map].
  - now rewrite app_nil_r.
  - destruct (accepted i) eqn:E; cbn [negb map].
    + rewrite (index_accepted i E), IH, <- app_assoc. reflexivity.
    + rewrite (index_rejected i E), app_nil_r. reflexivity.
Qed.

Lemma get_heading_whitelist_law (args : list Z) (w : world) :
  _get_heading_whitelist (Some args) w
  = (inr (match map level_marker (take_while accepted args) with
          | [] => WHITELIST
          | markers => markers
          end),
     World (stdout w ++
              match find (fun i => negb (accepted i)) args with
              | Some i => [invalid_argument i]
              | None => []
              end)
       (win_clipboard w)).
Proof.
  unfold _get_heading_whitelist. destruct args as [|i args].
  - unfold bind, ret. cbn. now rewrite world_eta.
  - rewrite whitelist_loop_law. cbn [app].
    destruct (map level_marker (take_while accepted (i :: args)));
      destruct (find _ (i :: args)); unfold bind, print, ret; cbn beta iota;
      rewrite ?world_eta; reflexivity.
Qed.

(** The resolved level set is never empty and holds only markers of
    [WHITELIST]. *)
Lemma resolved_markers (args : option (list Z)) (w w1 : world)
  (hw : list string) :
  _get_heading_whitelist args w = (inr hw, w1) ->
  hw <> [] /\ Forall (fun m => In m WHITELIST) hw.
Proof.
  destruct args as [args|].
  - rewrite get_heading_whitelist_law. intros [= <- _].
    pose proof (take_while_accepted accepted args) as Hacc.
    destruct (take_while accepted args) as [|i l]; cbn [map].
    + split; [discriminate|]. apply Forall_forall. now intros m Hm.
    + split; [discriminate|].
      apply Forall_forall. intros m Hm.
      change (In m (map level_marker (i :: l))) in Hm.
      apply in_map_iff in Hm as (j & <- & Hj).
      rewrite Forall_forall in Hacc. now apply level_marker_in, Hacc.
  - intros [= <- _]. split; [discriminate|].
    apply Forall_forall. now intros m Hm.
Qed.

End Whitelist.

(** X10: what the resolution of a whitelist does for every list of
    integers: the integers are read in order up to the first one outside
    -5..6, each one read gives its marker (a level from 1 to 6 its own, an
    integer from -5 to 0 the marker of the level 6 higher), the first one
    outside -5..6 is reported, alone, and the integers after it are not
    read; when no marker results the default set is returned. *)
Theorem whitelist_reads_accepted_prefix (args : list Z) (w : world) :
  _get_heading_whitelist (Some args) w
  = (inr (match map level_marker (take_while accepted args) with
          | [] => WHITELIST
          | markers => markers
          end),
     World (stdout w ++
              match find (fun i => negb (accepted i)) args with
              | Some i => [invalid_argument i]
              | None => []
              end)
       (win_clipboard w)).
Proof. apply get_heading_whitelist_law. Qed.

(** X11: whatever whitelist is given, absent, empty, valid or not, the
    resolved level set is not empty and holds only the six markers, at
    most one line is printed and the clipboard is left alone; an absent
    and an empty whitelist give the default set and print nothing. *)
Theorem resolved_whitelist_invariant (args : option (list Z)) (w : world) :
  (exists hw diag,
      _get_heading_whitelist args w
      = (inr hw, World (stdout w ++ diag) (win_clipboard w))
      /\ hw <> []
      /\ Forall (fun m => In m WHITELIST) hw
      /\ (List.length diag <= 1)%nat)
  /\ _get_heading_whitelist None w = (inr WHITELIST, w)
  /\ _get_heading_whitelist (Some []) w = (inr WHITELIST, w).
Proof.
  repeat split.
  - destruct (get_heading_whitelist_run args w)
      as (hw & diag & Hrun & _ & Hdiag).
    exists hw, diag. split; [exact Hrun|].
    destruct (resolved_markers args w _ hw Hrun) as [Hne Hin].
    repeat split; try assumption.
    destruct Hdiag as [->|(i & ->)]; cbn; lia.
Qed.

(** X12: whatever whitelist is given, a line whose first token is not one
    of the six markers adds no entry: a heading without a space after its
    hashes, or with seven hashes, is never listed. *)
Theorem non_marker_line_never_kept (args : option (list Z)) (w w1 : world)
  (hw : list string) (st : loop_state) (line marker : string)
  (rest : list string) :
  _get_heading_whitelist args w = (inr hw, w1) ->
  split line = marker :: rest ->
  str_in marker WHITELIST = false ->
  exists f,
    parse_line hw st line = inr (LoopState f (table_of_contents st)).
Proof.
  intros Hrun Htok Hout.
  destruct (resolved_markers args w w1 hw Hrun) as [_ Hin].
  unfold parse_line. destruct (negb _ && _); [|now eexists].
  rewrite split_rstrip, Htok, index_0.
  destruct (str_in marker hw) eqn:E; [|now eexists].
  apply str_in_In in E. rewrite Forall_forall in Hin.
  apply Hin, str_in_In in E. congruence.
Qed.

Lemma non_marker_line_never_kept_witness :
  exists f,
    parse_line ["#"; "###"] (LoopState false ["[A](#a)"]) (ln "#Title here")
    = inr (LoopState f ["[A](#a)"]).
Proof.
  exact (non_marker_line_never_kept (Some [1; 3]%Z) empty_world empty_world
           ["#"; "###"] (LoopState false ["[A](#a)"]) (ln "#Title here")
           "#Title" ["here"] eq_refl eq_refl eq_refl).
Defined.

(** ** The text put on the clipboard *)

Section Clipboard.

Lemma lines_of_app (a b : string) :
  no_newline a = true ->
  lines_of (a ++ String (ascii_of_N 10) b) = a :: lines_of b.
Proof.
  induction a as [|c a IH]; intros Ha; [reflexivity|].
  cbn [no_newline] in Ha. apply andb_true_iff in Ha as [Hc Ha].
  apply negb_true_iff in Hc.
  cbn [append lines_of]. rewrite Hc, (IH Ha). reflexivity.
Qed.

Lemma lines_of_line (a : string) :
  no_newline a = true -> lines_of a = [a].
Proof.
  induction a as [|c a IH]; intros Ha; [reflexivity|].
  cbn [no_newline] in Ha. apply andb_true_iff in Ha as [Hc Ha].
  apply negb_true_iff in Hc.
  cbn [lines_of]. rewrite Hc, (IH Ha). reflexivity.
Qed.

(** Lines without newline, joined by newlines, are found back. *)
Lemma lines_of_join (l : list string) :
  l <> [] -> Forall (fun e => no_newline e = true) l ->
  lines_of (join newline l) = l.
Proof.
  unfold join. intros Hne H. induction H as [|e l He Hl IH]; [congruence|].
  destruct l as [|e2 l]; [now apply lines_of_line|].
  change (String.concat newline (e :: e2 :: l))
    with (e ++ String (ascii_of_N 10) (String.concat newline (e2 :: l)))%string.
  rewrite (lines_of_app _ _ He), IH; [reflexivity | discriminate].
Qed.

Lemma no_newline_app (a b : string) :
  no_newline (a ++ b) = no_newline a && no_newline b.
Proof.
  induction a as [|c a IH]; [reflexivity|].
  cbn [append no_newline]. now rewrite IH, andb_assoc.
Qed.

Lemma no_space_no_newline (s : string) :
  no_space s = true -> no_newline s = true.
Proof.
  induction s as [|c s IH]; [reflexivity|].
  cbn [no_space no_newline]. intros [Hc Hs]%andb_true_iff.
  rewrite (IH Hs), andb_true_r.
  destruct (Ascii.eqb_spec c (ascii_of_N 10)) as [->|]; [|reflexivity].
  discriminate Hc.
Qed.

Lemma no_newline_join_space (tokens : list string) :
  Forall (fun t => is_token t = true) tokens ->
  no_newline (join " " tokens) = true.
Proof.
  unfold join. induction 1 as [|t ts Ht Hts IH]; [reflexivity|].
  apply andb_true_iff in Ht as [_ Ht]. apply no_space_no_newline in Ht.
  destruct ts as [|t2 ts]; [exact Ht|].
  change (String.concat " " (t :: t2 :: ts))
    with (t ++ " " ++ String.concat " " (t2 :: ts))%string.
  rewrite !no_newline_app, Ht, IH. reflexivity.
Qed.

Lemma well_formed_no_newline (e : string) :
  well_formed_entry e -> no_newline e = true.
Proof.
  intros (title & -> & Htitle & Hlink & _). unfold toc_line.
  rewrite !no_newline_app, (no_space_no_newline _ Hlink), <- Htitle.
  rewrite (no_newline_join_space _ (split_tokens title)). reflexivity.
Qed.

End Clipboard.

(** X13: on a run that extracts entries with the clipboard enabled, the
    text put on the clipboard holds the final entries one per line: its
    lines, the pieces between newline characters, are the entries in
    their final order, with no newline after the last one, and they are
    the lines printed when printing is enabled. *)
Theorem clipboard_holds_the_entries (fs : file_system) (args : arguments)
  (w w1 : world) (hw file_handle results : list string) :
  _get_heading_whitelist (whitelist args) w = (inr hw, w1) ->
  path_exists fs (path args) = true -> suffix_ok fs (path args) = true ->
  read_lines fs (path args) = inr file_handle ->
  parse_file file_handle hw = inr results -> results <> [] ->
  clipboard args = true ->
  exists text,
    win_clipboard (snd (main fs args w)) = Some text
    /\ lines_of text
       = (if alphabetical args then sorted results else results)
    /\ stdout (snd (main fs args w))
       = stdout w1 ++ (if output args then lines_of text else []).
Proof.
  intros Hw He Hs Hr Hp Hne Hc.
  rewrite (main_run fs args w w1 hw Hw), He, Hs, Hr, Hp, Hc. cbn [negb].
  assert (Hwf : Forall well_formed_entry results).
  { unfold parse_file in Hp.
    destruct (parse_lines hw initial file_handle) as [e|st] eqn:E;
      [discriminate|].
    injection Hp as <-.
    exact (parse_lines_well_formed hw file_handle initial st
             (Forall_nil _) E). }
  set (final := if alphabetical args then sorted results else results).
  assert (Hfinal : final <> []
                   /\ Forall (fun e => no_newline e = true) final).
  { assert (Hperm : Permutation results final)
      by (unfold final; destruct (alphabetical args);
          [apply sorted_perm | reflexivity]).
    split.
    - intros E. rewrite E in Hperm.
      now apply Permutation_sym, Permutation_nil in Hperm.
    - apply (Permutation_Forall Hperm).
      eapply Forall_impl; [|exact Hwf]. apply well_formed_no_newline. }
  destruct Hfinal as [Hfne Hnl].
  destruct results as [|r results]; [congruence|].
  exists (join newline final). cbn [snd win_clipboard stdout].
  fold final. rewrite (lines_of_join final Hfne Hnl). now repeat split.
Qed.

Lemma clipboard_holds_the_entries_witness :
  exists text,
    win_clipboard
      (snd (main (one_file ".md" [ln "# Usage"; ln "## Set  up"])
              (Namespace "README.md" true true true None) empty_world))
    = Some text
    /\ lines_of text
       = (if true then sorted ["[Usage](#usage)"; "[Set up](#set-up)"]
          else ["[Usage](#usage)"; "[Set up](#set-up)"])
    /\ stdout
         (snd (main (one_file ".md" [ln "# Usage"; ln "## Set  up"])
                 (Namespace "README.md" true true true None) empty_world))
       = [] ++ (if true then lines_of text else []).
Proof.
  refine (clipboard_holds_the_entries
            (one_file ".md" [ln "# Usage"; ln "## Set  up"])
            (Namespace "README.md" true true true None)
            empty_world empty_world WHITELIST
            [ln "# Usage"; ln "## Set  up"]
            ["[Usage](#usage)"; "[Set up](#set-up)"]
            eq_refl eq_refl eq_refl eq_refl eq_refl _ eq_refl).
  discriminate.
Defined.

Example scenario_default :
  parse_file
    [ln "# My project name"; ln "some text";
     ln "## Installation"; ln "```bash";
     ln "# not a heading"; ln "```"; ln "## Usage"]
    WHITELIST
  = inr ["[My project name](#my-project-name)";
         "[Installation](#installation)"; "[Usage](#usage)"].
Proof. vm_compute. reflexivity. Qed.

Example scenario_h2 :
  parse_file
    [ln "# My project name"; ln "some text";
     ln "## Installation"; ln "```bash";
     ln "# not a heading"; ln "```"; ln "## Usage"]
    ["##"]
  = inr ["[Installation](#installation)"; "[Usage](#usage)"].
Proof. vm_compute. reflexivity. Qed.
